(** * The lambda-invoke bootstrap: one invocation of a user handler

    A shallow embedding of [packages/cli/assets/lambda-invoke/bootstrap.js].
    The script resolves the user's handler, calls it once, folds the three
    ways a handler can complete (return value, thenable, callback) into one
    promise, reports to the parent process with [process.send] and decides
    when to call [process.exit].

    The event loop is modelled as a labelled transition system.  Every piece
    of synchronous JavaScript is one atomic step; what the event loop is free
    to choose (when user code runs again, when the transport calls back, when
    an [await] continues) is a label of the schedule. *)

From Stdlib Require Import ZArith Ascii.
From stdpp Require Import base option list strings.

Open Scope Z_scope.

(** ** JavaScript values *)

(** The values the script looks at.  Numbers are the integer-valued ones;
    [JError] is an [Error] object with its message; [JFunction] is any
    callable without own properties; [JObject] is a plain object. *)
#[local] Set Warnings "-register-all".
Inductive JsValue : Type :=
| JUndefined
| JNull
| JBool (b : bool)
| JNum (n : Z)
| JStr (s : string)
| JError (message : string)
| JFunction (tag : nat)
| JObject (props : list (string * JsValue)).
#[local] Set Warnings "register-all".

(** [err ? ... : ...] *)
Definition truthy (v : JsValue) : bool :=
  match v with
  | JUndefined | JNull => false
  | JBool b => b
  | JNum n => negb (n =? 0)
  | JStr EmptyString => false
  | _ => true
  end.

(** [x === false] *)
Definition is_false (v : JsValue) : bool :=
  match v with
  | JBool false => true
  | _ => false
  end.

(** [typeof x === "function"] *)
Definition is_function (v : JsValue) : bool :=
  match v with
  | JFunction _ => true
  | _ => false
  end.

(** [x == null] *)
Definition is_nullish (v : JsValue) : bool :=
  match v with
  | JUndefined | JNull => true
  | _ => false
  end.

(** [o[k]] on the properties of a plain object. *)
Fixpoint getProp (k : string) (props : list (string * JsValue)) : JsValue :=
  match props with
  | [] => JUndefined
  | (k', v) :: rest => if String.eqb k k' then v else getProp k rest
  end.

(** [result != null && typeof result.then === "function"] *)
Definition isThenable (result : JsValue) : bool :=
  match result with
  | JObject props => is_function (getProp "then" props)
  | _ => false
  end.

(** ** The handler promise, messages and the state of the process *)

(** The promise built in [getHandler].  [Locked] is a promise whose
    [resolve] was given a thenable: it follows that thenable and no later
    call of [resolve] or [reject] changes it. *)
Inductive PState : Type :=
| Pending
| Locked
| Fulfilled (v : JsValue)
| Rejected (e : JsValue).

(** What [process.send] is given. *)
Inductive Msg : Type :=
| MSuccess (data : JsValue)
| MFailure (error : JsValue).

(** The code that waits for the transport's callback of a [process.send]. *)
Inductive Cont : Type :=
| KCallback          (* the [cb] given to invokeResponse by [callback] *)
| KProcessResponse   (* processEvents after [await invokeResponse(result)] *)
| KProcessError      (* processEvents after [await invokeError(e)] *)
| KStartError.       (* start after [await invokeError(e)] *)

Inductive Delivery : Type :=
| InFlight     (* handed to process.send, transport callback not yet called *)
| Confirmed    (* transport callback called, the await has not continued *)
| Resumed.     (* the code after the await has run *)

Record Sent : Type := mkSent {
  msg : Msg;
  cont : Cont;
  delivery : Delivery
}.

Record State : Type := mkState {
  promise : PState;
  callbackUsed : bool;                      (* CONTEXT[CALLBACK_USED] === true *)
  asyncHandler : bool;                      (* CONTEXT[ASYNC_HANDLER] === true *)
  exitOnCallback : bool;                    (* CONTEXT[EXIT_ON_CALLBACK] === true *)
  callbackWaitsForEmptyEventLoop : JsValue; (* CONTEXT.callbackWaitsForEmptyEventLoop *)
  outbox : list Sent;                       (* the process.send calls, in order *)
  awaitingHandler : bool;                   (* suspended at [await handler(EVENT, CONTEXT)] *)
  invoked : bool;                           (* userHandler has been called *)
  exited : option Z                         (* process.exit(code) *)
}.

Definition set_promise (p : PState) (s : State) : State :=
  mkState p (callbackUsed s) (asyncHandler s) (exitOnCallback s)
    (callbackWaitsForEmptyEventLoop s) (outbox s) (awaitingHandler s)
    (invoked s) (exited s).

Definition set_callbackUsed (b : bool) (s : State) : State :=
  mkState (promise s) b (asyncHandler s) (exitOnCallback s)
    (callbackWaitsForEmptyEventLoop s) (outbox s) (awaitingHandler s)
    (invoked s) (exited s).

Definition set_asyncHandler (b : bool) (s : State) : State :=
  mkState (promise s) (callbackUsed s) b (exitOnCallback s)
    (callbackWaitsForEmptyEventLoop s) (outbox s) (awaitingHandler s)
    (invoked s) (exited s).

Definition set_exitOnCallback (b : bool) (s : State) : State :=
  mkState (promise s) (callbackUsed s) (asyncHandler s) b
    (callbackWaitsForEmptyEventLoop s) (outbox s) (awaitingHandler s)
    (invoked s) (exited s).

Definition set_waits (v : JsValue) (s : State) : State :=
  mkState (promise s) (callbackUsed s) (asyncHandler s) (exitOnCallback s)
    v (outbox s) (awaitingHandler s) (invoked s) (exited s).

Definition set_outbox (o : list Sent) (s : State) : State :=
  mkState (promise s) (callbackUsed s) (asyncHandler s) (exitOnCallback s)
    (callbackWaitsForEmptyEventLoop s) o (awaitingHandler s)
    (invoked s) (exited s).

Definition set_awaitingHandler (b : bool) (s : State) : State :=
  mkState (promise s) (callbackUsed s) (asyncHandler s) (exitOnCallback s)
    (callbackWaitsForEmptyEventLoop s) (outbox s) b (invoked s) (exited s).

Definition set_invoked (b : bool) (s : State) : State :=
  mkState (promise s) (callbackUsed s) (asyncHandler s) (exitOnCallback s)
    (callbackWaitsForEmptyEventLoop s) (outbox s) (awaitingHandler s)
    b (exited s).

(** [process.exit(code)] *)
Definition process_exit (code : Z) (s : State) : State :=
  mkState (promise s) (callbackUsed s) (asyncHandler s) (exitOnCallback s)
    (callbackWaitsForEmptyEventLoop s) (outbox s) (awaitingHandler s)
    (invoked s) (Some code).

(** The process as the script finds it: [CONTEXT] is parsed from argv, so
    it carries none of the three symbol keys, and
    [callbackWaitsForEmptyEventLoop] is whatever the parent put there
    ([JUndefined] when absent). *)
Definition initial (waits : JsValue) : State :=
  mkState Pending false false false waits [] false false None.

(** ** The user's handler *)

(** What user code can do with what the script hands it. *)
Inductive UserAction : Type :=
| UCallback (err data : JsValue)   (* callback(err, data) *)
| USucceed (v : JsValue)           (* context.succeed(v); a returned thenable fulfilling with v *)
| UFail (e : JsValue)              (* context.fail(e); a returned thenable rejecting with e *)
| UDone (err data : JsValue)       (* context.done(err, data) *)
| USetWaits (v : JsValue)          (* context.callbackWaitsForEmptyEventLoop = v *)
| UAdoptResolve (v : JsValue)      (* a thenable the promise follows fulfils with v *)
| UAdoptReject (e : JsValue).      (* a thenable the promise follows rejects with e *)

Inductive Completion : Type :=
| Return (result : JsValue)
| Throw (e : JsValue).

(** The synchronous part of a call of the user's function: the entry points
    it uses, in order, and how the call ends.  A returned thenable's [then]
    registers the two functions it is given and returns; what user code does
    later is a label of the schedule. *)
Record Handler : Type := mkHandler {
  body : list UserAction;
  finish : Completion
}.

(** What the script reads from argv and from the required module. *)
Record Bundle : Type := mkBundle {
  HANDLER : string;             (* argv[4] *)
  ORIG_HANDLER_PATH : string;   (* argv[5] *)
  userHandler : JsValue;        (* app[handlerName] *)
  behaviour : Handler           (* what calling userHandler does, when it is a function *)
}.

(** ** The script *)

(** [resolve] of the handler promise. *)
Definition resolve (v : JsValue) (s : State) : State :=
  match promise s with
  | Pending => set_promise (if isThenable v then Locked else Fulfilled v) s
  | _ => s
  end.

(** [reject] of the handler promise. *)
Definition reject (e : JsValue) (s : State) : State :=
  match promise s with
  | Pending => set_promise (Rejected e) s
  | _ => s
  end.

(** [context.done = (err, data) => (err ? reject(err) : resolve(data))] *)
Definition done (err data : JsValue) (s : State) : State :=
  if truthy err then reject err s else resolve data s.

(** [process.send(m, () => resolve())] with the code that awaits it. *)
Definition send (m : Msg) (k : Cont) (s : State) : State :=
  set_outbox (outbox s ++ [mkSent m k InFlight]) s.

(** [result === undefined ? null : result] *)
Definition orNull (result : JsValue) : JsValue :=
  match result with
  | JUndefined => JNull
  | _ => result
  end.

(** [invokeResponse(result, cb)] up to its [await]. *)
Definition invokeResponse (result : JsValue) (k : Cont) (s : State) : State :=
  send (MSuccess (orNull result)) k s.

(** The [callback] handed to the user's function as third argument. *)
Definition callback (err data : JsValue) (s : State) : State :=
  invokeResponse data KCallback (done err data (set_callbackUsed true s)).

(** The function [callback] gives to invokeResponse. *)
Definition callback_cb (s : State) : State :=
  if exitOnCallback s then process_exit 0 s else s.

(** processEvents from [// async handler] to its end. *)
Definition processEvents_exit (s : State) : State :=
  if asyncHandler s then process_exit 0 s
  else if callbackUsed s then
    if is_false (callbackWaitsForEmptyEventLoop s) then process_exit 0 s
    else s
  else
    if is_false (callbackWaitsForEmptyEventLoop s) then set_exitOnCallback true s
    else s.

(** User code using one entry point.  The two follower actions act only
    while the promise follows a thenable; otherwise they are calls of
    resolving functions that are already used up. *)
Definition userAction (a : UserAction) (s : State) : State :=
  match a with
  | UCallback err data => callback err data s
  | USucceed v => resolve v s
  | UFail e => reject e s
  | UDone err data => done err data s
  | USetWaits v => set_waits v s
  | UAdoptResolve v =>
      match promise s with
      | Locked => set_promise (if isThenable v then Locked else Fulfilled v) s
      | _ => s
      end
  | UAdoptReject e =>
      match promise s with
      | Locked => set_promise (Rejected e) s
      | _ => s
      end
  end.

(** The entry points used while the user's function runs, in order. *)
Fixpoint runBody (acts : list UserAction) (s : State) : State :=
  match acts with
  | [] => s
  | a :: rest => runBody rest (userAction a s)
  end.

(** The executor of [new Promise((resolve, reject) => ...)] in getHandler. *)
Definition runHandler (h : Handler) (s : State) : State :=
  let s1 := runBody (body h) (set_invoked true s) in
  match finish h with
  | Throw e => reject e s1
  | Return result =>
      if isThenable result then set_asyncHandler true s1
      else resolve JNull s1
  end.

Definition quote : string := String "034"%char EmptyString.

Definition missing_message (handlerName origHandlerPath : string) : string :=
  "Handler " +:+ quote +:+ handlerName +:+ quote +:+ " missing in "
    +:+ quote +:+ origHandlerPath +:+ quote.

Definition not_function_message (handlerName origHandlerPath : string) : string :=
  "Handler " +:+ quote +:+ handlerName +:+ quote +:+ " in "
    +:+ quote +:+ origHandlerPath +:+ quote +:+ " is not a function".

(** [getHandler()]: the thrown error, or the handler to call. *)
Definition getHandler (b : Bundle) : JsValue + Handler :=
  if is_nullish (userHandler b) then
    inl (JError (missing_message (HANDLER b) (ORIG_HANDLER_PATH b)))
  else if negb (is_function (userHandler b)) then
    inl (JError (not_function_message (HANDLER b) (ORIG_HANDLER_PATH b)))
  else inr (behaviour b).

Inductive Label : Type :=
| LUser (a : UserAction)   (* user code runs and uses an entry point *)
| LResumeHandler           (* [await handler(EVENT, CONTEXT)] continues *)
| LConfirm (i : nat)       (* the transport calls back for the i-th send *)
| LResume (i : nat).       (* the await of the i-th send continues *)

Definition set_delivery (d : Delivery) (e : Sent) : Sent :=
  mkSent (msg e) (cont e) d.

(** ** Sample modules *)

(** A stand-in for [serializeError] in the examples: an [Error] becomes a
    plain object with its name and message, anything else is kept. *)
Definition sampleSerialize (e : JsValue) : JsValue :=
  match e with
  | JError message => JObject [("name", JStr "Error"); ("message", JStr message)]
  | _ => e
  end.

(** [exports.handler = () => {}] *)
Definition plainBundle : Bundle :=
  mkBundle "handler" "foo/bar" (JFunction 0) (mkHandler [] (Return JUndefined)).

(** [exports.handler = (event, context, callback) => { callback(null, 7) }] *)
Definition syncCallbackBundle : Bundle :=
  mkBundle "handler" "foo/bar" (JFunction 0)
    (mkHandler [UCallback JNull (JNum 7)] (Return JUndefined)).

(** [exports.handler = (event, context, callback) => { callback(new Error("boom")) }] *)
Definition errorCallbackBundle : Bundle :=
  mkBundle "handler" "foo/bar" (JFunction 0)
    (mkHandler [UCallback (JError "boom") JUndefined] (Return JUndefined)).

(** [exports.handler = async () => ...]: the call returns a thenable. *)
Definition asyncBundle : Bundle :=
  mkBundle "handler" "foo/bar" (JFunction 0)
    (mkHandler [] (Return (JObject [("then", JFunction 1)]))).

(** [exports.handler = () => { throw new Error("boom") }] *)
Definition throwingBundle : Bundle :=
  mkBundle "handler" "foo/bar" (JFunction 0) (mkHandler [] (Throw (JError "boom"))).

(** A module without the export [handler]. *)
Definition missingBundle : Bundle :=
  mkBundle "handler" "foo/bar" JUndefined (mkHandler [] (Return JUndefined)).

(** [exports.handler = 3] *)
Definition numberBundle : Bundle :=
  mkBundle "handler" "foo/bar" (JNum 3) (mkHandler [] (Return JUndefined)).


Section Bootstrap.

(** [serializeError] of [lib/serializeError]. *)
Variable serializeError : JsValue -> JsValue.

(** [invokeError(err)] up to its [await]. *)
Definition invokeError (err : JsValue) (k : Cont) (s : State) : State :=
  send (MFailure (serializeError err)) k s.

(** processEvents after [await handler(EVENT, CONTEXT)] settles, up to
    the next [await]. *)
Definition processEvents_resume (s : State) : option State :=
  match promise s with
  | Fulfilled result =>
      Some (invokeResponse result KProcessResponse (set_awaitingHandler false s))
  | Rejected e =>
      Some (invokeError e KProcessError (set_awaitingHandler false s))
  | _ => None
  end.

(** processEvents up to [await handler(EVENT, CONTEXT)]. *)
Definition processEvents (h : Handler) (s : State) : State :=
  set_awaitingHandler true (runHandler h s).

(** [start()] up to its first [await]. *)
Definition start (b : Bundle) (waits : JsValue) : State :=
  match getHandler b with
  | inl e => invokeError e KStartError (initial waits)
  | inr h => processEvents h (initial waits)
  end.

(** The code after the await of a send. *)
Definition resume (k : Cont) (s : State) : State :=
  match k with
  | KCallback => callback_cb s
  | KProcessResponse => processEvents_exit s
  | KProcessError => process_exit 1 s
  | KStartError => process_exit 1 s
  end.

(** One step of the event loop.  Nothing runs in a process that has
    exited, and user code runs only once the user's function was called. *)
Definition step (s : State) (l : Label) : option State :=
  match exited s with
  | Some _ => None
  | None =>
      match l with
      | LUser a => if invoked s then Some (userAction a s) else None
      | LResumeHandler =>
          if awaitingHandler s then processEvents_resume s else None
      | LConfirm i =>
          match outbox s !! i with
          | Some e =>
              match delivery e with
              | InFlight =>
                  Some (set_outbox (<[i := set_delivery Confirmed e]> (outbox s)) s)
              | _ => None
              end
          | None => None
          end
      | LResume i =>
          match outbox s !! i with
          | Some e =>
              match delivery e with
              | Confirmed =>
                  Some (resume (cont e)
                          (set_outbox (<[i := set_delivery Resumed e]> (outbox s)) s))
              | _ => None
              end
          | None => None
          end
      end
  end.

Fixpoint run (s : State) (sched : list Label) : option State :=
  match sched with
  | [] => Some s
  | l :: rest =>
      match step s l with
      | Some s' => run s' rest
      | None => None
      end
  end.

(** ** Vocabulary of the statements *)

Definition is_callback (a : UserAction) : bool :=
  match a with
  | UCallback _ _ => true
  | _ => false
  end.

(** The messages handed to [process.send], in order. *)
Definition msgs (s : State) : list Msg := msg <$> outbox s.

(** The promise is still pending after the user's function has used the
    entry points [acts]: none settled it, none made it follow a thenable. *)
Definition pendingAfter (acts : list UserAction) (waits : JsValue) : Prop :=
  promise (runBody acts (set_invoked true (initial waits))) = Pending.

(** The user's function comes to its end with the promise still pending. *)
Definition pendingAtReturn (h : Handler) (waits : JsValue) : Prop :=
  pendingAfter (body h) waits.

(** The two outcomes as read from the two properties of a message. *)
Definition is_success (m : Msg) : bool :=
  match m with MSuccess _ => true | MFailure _ => false end.

(** A message sent by processEvents or start, not by [callback]: the
    report of how the invocation settled. *)
Definition is_report (k : Cont) : bool :=
  match k with KCallback => false | _ => true end.

(** Each sender sends its own type of message. *)
Definition well_typed (e : Sent) : Prop :=
  is_success (msg e)
  = match cont e with KCallback | KProcessResponse => true | _ => false end.

(** What holds of the state reached by the schedule [pre]: messages are
    well typed, the exit on callback is armed only after the report of
    processEvents was confirmed and its await continued, and the transport
    called back only where the schedule says so. *)
Definition consistent (pre : list Label) (s : State) : Prop :=
  Forall well_typed (outbox s) /\
  (exitOnCallback s = true ->
   exists j r, outbox s !! j = Some r /\ cont r = KProcessResponse /\
               delivery r = Resumed) /\
  (forall i e, outbox s !! i = Some e -> delivery e <> InFlight ->
               LConfirm i ∈ pre).

(** The messages of processEvents and start in an outbox, and those of
    [callback]. *)
Definition reports_in (o : list Sent) : nat :=
  length (filter (fun e => is_report (cont e) = true) o).

Definition callback_msgs_in (o : list Sent) : nat :=
  length (filter (fun e => is_report (cont e) = false) o).

(** The calls of [callback] among the entry points used. *)
Definition callbacks_in (acts : list UserAction) : nat :=
  length (filter (fun a => is_callback a = true) acts).

(** The only failure message is the report of the rejection with [e]. *)
Definition only_failure_of (e : JsValue) (x : Sent) : Prop :=
  cont x = KCallback \/
  (cont x = KProcessError /\ msg x = MFailure (serializeError e)).

(** What holds all along once the promise is rejected with [e]. *)
Definition rejected_with (e : JsValue) (s : State) : Prop :=
  promise s = Rejected e /\ exitOnCallback s = false /\
  Forall (only_failure_of e) (outbox s).

(** What holds all along when the handler could not be resolved and the
    failure message [m] was sent. *)
Definition unresolved_with (m : Msg) (s : State) : Prop :=
  invoked s = false /\ awaitingHandler s = false /\ promise s = Pending /\
  (exists d, outbox s = [mkSent m KStartError d]) /\
  (exited s = None \/ exited s = Some 1).





(** Messages just handed to [process.send]. *)
Definition fresh (o : list Sent) : Prop :=
  Forall (fun e => well_typed e /\ delivery e = InFlight) o.

(** [sub] occurs in [s]. *)
Definition contains (s sub : string) : Prop :=
  exists p q : string, s = p +:+ sub +:+ q.


(** A step that is not a call of [callback]. *)
Definition no_callback (l : Label) : bool :=
  match l with
  | LUser (UCallback _ _) => false
  | _ => true
  end.

(** The calls of [callback] in a schedule. *)
Definition callbacks_of (sched : list Label) : nat :=
  length (filter (fun l => no_callback l = false) sched).

(** How the outbox goes with the promise in a run of a resolvable
    handler.  Before the settlement only [callback] has sent, nothing is
    armed and the process is alive; after a fulfilment with [v] the only
    other message is the success report of [v]; after a rejection with [e]
    the only other message is the failure report of [e] and nothing is
    armed. *)
Definition agrees (s : State) : Prop :=
  match promise s with
  | Pending | Locked =>
      exitOnCallback s = false /\ exited s = None /\
      Forall (fun x => cont x = KCallback) (outbox s)
  | Fulfilled v =>
      Forall (fun x => cont x = KCallback \/
                       (cont x = KProcessResponse /\ msg x = MSuccess (orNull v)))
        (outbox s)
  | Rejected e =>
      exitOnCallback s = false /\ Forall (only_failure_of e) (outbox s)
  end.

(** The exit on callback is armed for sync-style handlers only. *)
Definition armed_sync (s : State) : Prop :=
  exitOnCallback s = true -> asyncHandler s = false.

(** No success message carries [undefined]. *)
Definition defined_data (x : Sent) : Prop := msg x <> MSuccess JUndefined.



(** The last character of a string. *)
Fixpoint lastChar (s : string) : option ascii :=
  match s with
  | EmptyString => None
  | String c EmptyString => Some c
  | String _ rest => lastChar rest
  end.

(** ** Basic facts *)

Ltac unfold_script :=
  unfold callback, invokeResponse, invokeError, send, done, resolve, reject,
    callback_cb, processEvents_exit, process_exit, set_promise,
    set_callbackUsed, set_asyncHandler, set_exitOnCallback, set_waits,
    set_outbox, set_awaitingHandler, set_invoked in *.

Ltac solve_forall :=
  match goal with
  | H : Forall _ ?o |- Forall _ (?o ++ _) =>
      apply Forall_app_2;
      [ eapply Forall_impl; [exact H | simpl; unfold only_failure_of; tauto]
      | constructor; [simpl; unfold only_failure_of; tauto | constructor] ]
  | H : Forall _ ?o |- Forall _ ?o =>
      eapply Forall_impl; [exact H | simpl; unfold only_failure_of; tauto]
  end.

Lemma getHandler_function (b : Bundle) :
  is_function (userHandler b) = true -> getHandler b = inr (behaviour b).
Proof.
  unfold getHandler. intros Hf.
  destruct (userHandler b); simpl in *; congruence.
Qed.

Lemma userAction_outbox (a : UserAction) (s : State) :
  outbox (userAction a s) =
  match a with
  | UCallback _ data => outbox s ++ [mkSent (MSuccess (orNull data)) KCallback InFlight]
  | _ => outbox s
  end.
Proof.
  destruct s as [p cu ah ec w o aw iv ex].
  destruct a as [err data|v|e|err data|v|v|e]; unfold userAction; unfold_script; simpl;
    repeat match goal with
           | |- context [truthy ?x] => destruct (truthy x)
           | |- context [match ?q with Pending => _ | _ => _ end] => destruct q
           end; reflexivity.
Qed.

(** User code never touches what only the script writes. *)
Lemma userAction_frame (a : UserAction) (s : State) :
  asyncHandler (userAction a s) = asyncHandler s /\
  exitOnCallback (userAction a s) = exitOnCallback s /\
  awaitingHandler (userAction a s) = awaitingHandler s /\
  invoked (userAction a s) = invoked s /\
  exited (userAction a s) = exited s.
Proof.
  destruct s as [p cu ah ec w o aw iv ex].
  destruct a as [err data|v|e|err data|v|v|e]; unfold userAction; unfold_script; simpl;
    repeat match goal with
           | |- context [truthy ?x] => destruct (truthy x)
           | |- context [match ?q with Pending => _ | _ => _ end] => destruct q
           end; auto.
Qed.

(** A promise that has left [Pending] never comes back to it, and a
    settled promise never changes. *)
Lemma userAction_settled (a : UserAction) (s : State) :
  (promise s <> Pending -> promise (userAction a s) <> Pending) /\
  (forall v, promise s = Fulfilled v -> promise (userAction a s) = Fulfilled v) /\
  (forall e, promise s = Rejected e -> promise (userAction a s) = Rejected e).
Proof.
  destruct s as [p cu ah ec w o aw iv ex].
  destruct a as [err data|v|e|err data|v|v|e]; unfold userAction; unfold_script; simpl;
    repeat match goal with
           | |- context [truthy ?x] => destruct (truthy x)
           | |- context [match ?q with Pending => _ | _ => _ end] => destruct q
           | |- context [isThenable ?x] => destruct (isThenable x)
           end; simpl; repeat split; intros; congruence.
Qed.

Lemma callback_leaves_pending (err data : JsValue) (s : State) :
  promise (callback err data s) <> Pending.
Proof.
  destruct s as [p cu ah ec w o aw iv ex]. unfold_script. simpl.
  destruct (truthy err), p; simpl; try destruct (isThenable data); simpl; congruence.
Qed.


Lemma runBody_frame (acts : list UserAction) (s : State) :
  asyncHandler (runBody acts s) = asyncHandler s /\
  exitOnCallback (runBody acts s) = exitOnCallback s /\
  awaitingHandler (runBody acts s) = awaitingHandler s /\
  invoked (runBody acts s) = invoked s /\
  exited (runBody acts s) = exited s.
Proof.
  revert s. induction acts as [|a acts IH]; intros s; simpl; [tauto|].
  destruct (IH (userAction a s)) as (-> & -> & -> & -> & ->).
  apply userAction_frame.
Qed.

Lemma runBody_not_pending (acts : list UserAction) (s : State) :
  promise s <> Pending -> promise (runBody acts s) <> Pending.
Proof.
  revert s. induction acts as [|a acts IH]; intros s H; simpl; auto.
  apply IH. now apply userAction_settled.
Qed.


(** While the promise is pending the callback was not called: nothing was
    sent and [CALLBACK_USED] is as it was. *)
Lemma runBody_pending (acts : list UserAction) (s : State) :
  promise (runBody acts s) = Pending ->
  outbox (runBody acts s) = outbox s /\
  callbackUsed (runBody acts s) = callbackUsed s /\
  Forall (fun a => is_callback a = false) acts.
Proof.
  revert s. induction acts as [|a acts IH]; intros s H; simpl in *; [auto|].
  destruct a as [err data|v|e|err data|v|v|e];
    try (destruct (IH _ H) as (-> & -> & HF);
         rewrite userAction_outbox; split; [reflexivity|]; split;
         [ destruct s as [p cu ah ec w o aw iv ex]; unfold userAction; unfold_script; simpl;
           repeat match goal with
                  | |- context [truthy ?x] => destruct (truthy x)
                  | |- context [match ?q with Pending => _ | _ => _ end] => destruct q
                  end; reflexivity
         | constructor; [reflexivity | exact HF] ]).
  exfalso. revert H. apply runBody_not_pending. simpl. apply callback_leaves_pending.
Qed.

Lemma start_function (b : Bundle) (waits : JsValue) :
  is_function (userHandler b) = true ->
  start b waits = processEvents (behaviour b) (initial waits).
Proof. intros Hf. unfold start. now rewrite getHandler_function. Qed.

(** The state in which the user's function ends when nothing settled the
    promise: only the waiting flag may have been written. *)
Lemma pending_acts (acts : list UserAction) (waits : JsValue) :
  pendingAfter acts waits ->
  exists w,
    runBody acts (set_invoked true (initial waits))
    = mkState Pending false false false w [] false true None.
Proof.
  unfold pendingAfter. intros Hp.
  destruct (runBody_pending _ _ Hp) as (Ho & Hc & _).
  destruct (runBody_frame acts (set_invoked true (initial waits)))
    as (Ha & He & Hw & Hi & Hx).
  destruct (runBody acts (set_invoked true (initial waits)))
    as [p cu ah ec w o aw iv ex].
  simpl in *. subst. now exists w.
Qed.

Lemma pending_body (h : Handler) (waits : JsValue) :
  pendingAtReturn h waits ->
  exists w,
    runBody (body h) (set_invoked true (initial waits))
    = mkState Pending false false false w [] false true None.
Proof. apply pending_acts. Qed.

Lemma run_app (s : State) (xs ys : list Label) :
  run s (xs ++ ys) = run s xs ≫= fun s' => run s' ys.
Proof.
  revert s. induction xs as [|l xs IH]; intros s; simpl; [reflexivity|].
  destruct (step s l); simpl; auto.
Qed.



Lemma run_snoc (s : State) (xs : list Label) (l : Label) :
  run s (xs ++ [l]) = run s xs ≫= fun s' => step s' l.
Proof.
  rewrite run_app. destruct (run s xs) as [s'|]; simpl; [|reflexivity].
  now destruct (step s' l).
Qed.

(** An invariant of the steps taken is an invariant of the run. *)
Lemma run_invariant (P : State -> Prop) (A : Label -> Prop) :
  (forall s l s', P s -> A l -> step s l = Some s' -> P s') ->
  forall sched s s', Forall A sched -> P s -> run s sched = Some s' -> P s'.
Proof.
  intros Hstep. induction sched as [|l sched IH]; intros s s' HA HP Hrun; simpl in Hrun.
  - congruence.
  - apply Forall_cons in HA as [Hl HA].
    destruct (step s l) as [s1|] eqn:E; [|discriminate].
    apply (IH s1 s' HA); [|exact Hrun]. exact (Hstep s l s1 HP Hl E).
Qed.

(** ** The callback and [done] *)

Lemma callback_sends (s : State) (err data : JsValue) :
  outbox (callback err data s)
  = outbox s ++ [mkSent (MSuccess (orNull data)) KCallback InFlight].
Proof. exact (userAction_outbox (UCallback err data) s). Qed.

Lemma callback_fields (s : State) (err data : JsValue) :
  promise (callback err data s) = promise (done err data s) /\
  callbackUsed (callback err data s) = true /\
  callbackWaitsForEmptyEventLoop (callback err data s)
  = callbackWaitsForEmptyEventLoop (done err data s).
Proof.
  destruct s as [p cu ah ec w o aw iv ex]. unfold_script. simpl.
  destruct (truthy err), p; simpl; auto.
Qed.

Lemma done_outbox (s : State) (err data : JsValue) :
  outbox (done err data s) = outbox s /\ callbackUsed (done err data s) = callbackUsed s.
Proof.
  destruct s as [p cu ah ec w o aw iv ex]. unfold_script. simpl.
  destruct (truthy err), p; simpl; auto.
Qed.

(** C2, as amended.  [done(err, data)] is [err ? fail(err) : succeed(data)],
    and [callback(err, data)] settles the promise exactly as [done(err, data)]
    does; on top of that it sets [CALLBACK_USED] and hands one success
    message carrying [data] to [process.send], which [done] does not. *)
Theorem callback_is_done_plus_report (s : State) (err data : JsValue) :
  done err data s
    = (if truthy err then userAction (UFail err) s else userAction (USucceed data) s) /\
  promise (callback err data s) = promise (done err data s) /\
  callbackUsed (callback err data s) = true /\
  callbackUsed (done err data s) = callbackUsed s /\
  outbox (done err data s) = outbox s /\
  outbox (callback err data s)
    = outbox (done err data s) ++ [mkSent (MSuccess (orNull data)) KCallback InFlight].
Proof.
  destruct (callback_fields s err data) as (Hp & Hu & _).
  destruct (done_outbox s err data) as (Ho & Hc).
  repeat split; auto.
  rewrite Ho. apply callback_sends.
Qed.

(** ** A call of [callback] always reports *)




(** ** Returning a plain value *)

(** C3.  When the user's function returns a value [v] that is not a
    thenable and no entry point settled the promise before, the promise is
    fulfilled with [null], and what processEvents then reports is the
    success message with [null], whatever [v] is. *)
Theorem plain_return_settles_null (b : Bundle) (waits v : JsValue) :
  is_function (userHandler b) = true ->
  finish (behaviour b) = Return v ->
  isThenable v = false ->
  pendingAtReturn (behaviour b) waits ->
  promise (start b waits) = Fulfilled JNull /\
  outbox (start b waits) = [] /\
  exists s',
    step (start b waits) LResumeHandler = Some s' /\
    promise s' = Fulfilled JNull /\
    outbox s' = [mkSent (MSuccess JNull) KProcessResponse InFlight].
Proof.
  intros Hf Hfin Hv Hp. rewrite start_function by exact Hf.
  unfold processEvents, runHandler. rewrite Hfin, Hv.
  destruct (pending_body _ _ Hp) as [w ->].
  repeat split. eexists. repeat split.
Qed.

(** ** Exits come after confirmations *)

Lemma step_alive (s s' : State) (l : Label) :
  step s l = Some s' -> exited s = None.
Proof. unfold step. destruct (exited s); [discriminate|reflexivity]. Qed.

Lemma resume_frame (k : Cont) (s : State) :
  outbox (resume k s) = outbox s /\
  promise (resume k s) = promise s /\
  awaitingHandler (resume k s) = awaitingHandler s /\
  invoked (resume k s) = invoked s /\
  (exitOnCallback (resume k s) = true ->
   exitOnCallback s = true \/ k = KProcessResponse).
Proof.
  destruct s as [p cu ah ec w o aw iv ex].
  destruct k; unfold resume; unfold_script; simpl;
    repeat match goal with
           | |- context [if ?c then _ else _] => destruct c
           end; simpl; auto 6.
Qed.

(** How a code of exit comes about: the await of a confirmed message
    continues, and the code is the one of that message's sender. *)
Lemma resume_exit (k : Cont) (s : State) (c : Z) :
  exited s = None -> exited (resume k s) = Some c ->
  (k = KCallback /\ exitOnCallback s = true /\ c = 0) \/
  (k = KProcessResponse /\ c = 0) \/
  ((k = KProcessError \/ k = KStartError) /\ c = 1).
Proof.
  destruct s as [p cu ah ec w o aw iv ex]. simpl. intros ->.
  destruct k; unfold resume; unfold_script; simpl;
    repeat match goal with
           | |- context [if ?c then _ else _] => destruct c
           end; simpl; intros H; inversion H; auto 6.
Qed.

Lemma step_exit (s s' : State) (l : Label) (c : Z) :
  step s l = Some s' -> exited s' = Some c ->
  exists i e,
    l = LResume i /\ outbox s !! i = Some e /\ delivery e = Confirmed /\
    outbox s' = <[i := set_delivery Resumed e]> (outbox s) /\
    ((cont e = KCallback /\ exitOnCallback s = true /\ c = 0) \/
     (cont e = KProcessResponse /\ c = 0) \/
     ((cont e = KProcessError \/ cont e = KStartError) /\ c = 1)).
Proof.
  intros Hs Hx. pose proof (step_alive _ _ _ Hs) as Ha.
  unfold step in Hs. rewrite Ha in Hs.
  destruct l as [a| |i|i].
  - destruct (invoked s); [|discriminate]. inversion Hs; subst.
    destruct (userAction_frame a s) as (_ & _ & _ & _ & He). congruence.
  - destruct (awaitingHandler s); [|discriminate].
    unfold processEvents_resume in Hs.
    destruct (promise s); inversion Hs; subst; simpl in Hx; congruence.
  - destruct (outbox s !! i) as [e|]; [|discriminate].
    destruct (delivery e); inversion Hs; subst; simpl in Hx; congruence.
  - destruct (outbox s !! i) as [e|] eqn:El; [|discriminate].
    destruct (delivery e) eqn:Ed; inversion Hs; subst.
    exists i, e. repeat split; auto.
    + apply resume_frame.
    + exact (resume_exit (cont e)
               (set_outbox (<[i:=set_delivery Resumed e]> (outbox s)) s) c Ha Hx).
Qed.

Lemma runBody_fresh (acts : list UserAction) (s : State) :
  fresh (outbox s) -> fresh (outbox (runBody acts s)).
Proof.
  revert s. induction acts as [|a acts IH]; intros s H; simpl; auto.
  apply IH. rewrite userAction_outbox. destruct a; auto.
  apply Forall_app_2; auto. repeat constructor.
Qed.

Lemma runHandler_frame (h : Handler) (s : State) :
  outbox (runHandler h s) = outbox (runBody (body h) (set_invoked true s)) /\
  exitOnCallback (runHandler h s) = exitOnCallback s /\
  exited (runHandler h s) = exited s /\
  invoked (runHandler h s) = true.
Proof.
  unfold runHandler.
  destruct (runBody_frame (body h) (set_invoked true s)) as (_ & He & _ & Hi & Hx).
  destruct (finish h) as [result|e].
  - destruct (isThenable result).
    + simpl. auto.
    + pose proof (userAction_outbox (USucceed JNull) (runBody (body h) (set_invoked true s))) as Ho.
      destruct (userAction_frame (USucceed JNull) (runBody (body h) (set_invoked true s)))
        as (_ & He' & _ & Hi' & Hx').
      simpl in *. rewrite Ho, He', Hi', Hx', He, Hi, Hx. auto.
  - pose proof (userAction_outbox (UFail e) (runBody (body h) (set_invoked true s))) as Ho.
    destruct (userAction_frame (UFail e) (runBody (body h) (set_invoked true s)))
      as (_ & He' & _ & Hi' & Hx').
    simpl in *. rewrite Ho, He', Hi', Hx', He, Hi, Hx. auto.
Qed.

Lemma start_fresh (b : Bundle) (waits : JsValue) :
  fresh (outbox (start b waits)) /\
  exitOnCallback (start b waits) = false /\
  exited (start b waits) = None.
Proof.
  unfold start. destruct (getHandler b) as [e|h].
  - simpl. repeat constructor.
  - unfold processEvents. simpl.
    destruct (runHandler_frame h (initial waits)) as (-> & -> & -> & _).
    split; [|auto]. apply runBody_fresh. constructor.
Qed.

Lemma consistent_start (b : Bundle) (waits : JsValue) :
  consistent [] (start b waits).
Proof.
  destruct (start_fresh b waits) as (Hf & He & _).
  split; [|split].
  - eapply Forall_impl; [exact Hf|]. simpl. tauto.
  - congruence.
  - intros i e Hl Hd. exfalso. apply Hd.
    exact (proj2 (Forall_lookup_1 _ _ _ _ Hf Hl)).
Qed.

(** Appending a message in flight keeps a state consistent. *)
Lemma consistent_send (pre : list Label) (l : Label) (o : list Sent) (s' : State) (e : Sent) :
  Forall well_typed o ->
  (forall i x, o !! i = Some x -> delivery x <> InFlight -> LConfirm i ∈ pre) ->
  (exitOnCallback s' = true ->
   exists j r, o !! j = Some r /\ cont r = KProcessResponse /\ delivery r = Resumed) ->
  well_typed e -> delivery e = InFlight ->
  outbox s' = o ++ [e] ->
  consistent (pre ++ [l]) s'.
Proof.
  intros H1 H3 H2 Hw Hd Ho. unfold consistent. rewrite Ho. split; [|split].
  - apply Forall_app_2; auto.
  - intros Hx. destruct (H2 Hx) as (j & r & Hl & Hr).
    exists j, r. split; auto. now apply lookup_app_l_Some.
  - intros i x Hl Hn. apply elem_of_app. left.
    apply lookup_app_Some in Hl as [Hl|[_ Hl]].
    + eapply H3; eauto.
    + apply list_lookup_singleton_Some in Hl as [_ <-]. congruence.
Qed.

Lemma consistent_step (pre : list Label) (s s' : State) (l : Label) :
  consistent pre s -> step s l = Some s' -> consistent (pre ++ [l]) s'.
Proof.
  intros (H1 & H2 & H3) Hs. pose proof (step_alive _ _ _ Hs) as Ha.
  unfold step in Hs. rewrite Ha in Hs.
  destruct l as [a| |i|i].
  - destruct (invoked s); [|discriminate]. inversion Hs; subst s'. clear Hs.
    pose proof (userAction_outbox a s) as Ho.
    destruct (userAction_frame a s) as (_ & He & _).
    destruct a as [err data|v|e|err data|v|v|e];
      try (split; [|split];
           [ rewrite Ho; exact H1
           | rewrite He, Ho; exact H2
           | rewrite Ho; intros i x Hl Hn; apply elem_of_app; left; eauto ]).
    apply (consistent_send pre _ (outbox s) _
             (mkSent (MSuccess (orNull data)) KCallback InFlight)); auto.
    + intros Hx. apply H2. rewrite <- He. exact Hx.
    + reflexivity.
  - destruct (awaitingHandler s); [|discriminate].
    unfold processEvents_resume in Hs.
    destruct (promise s); inversion Hs; subst s'; clear Hs;
      (eapply consistent_send; eauto; reflexivity).
  - destruct (outbox s !! i) as [e|] eqn:El; [|discriminate].
    destruct (delivery e) eqn:Ed; inversion Hs; subst s'; clear Hs.
    split; [|split]; simpl.
    + apply Forall_insert; auto. exact (Forall_lookup_1 _ _ _ _ H1 El).
    + intros Hx. destruct (H2 Hx) as (j & r & Hl & Hk & Hr).
      exists j, r. split; auto. rewrite list_lookup_insert_ne; auto.
      intros ->. congruence.
    + intros j x Hl Hn. apply elem_of_app.
      destruct (decide (i = j)) as [->|Hne].
      * right. constructor.
      * left. rewrite list_lookup_insert_ne in Hl by exact Hne. eauto.
  - destruct (outbox s !! i) as [e|] eqn:El; [|discriminate].
    destruct (delivery e) eqn:Ed; inversion Hs; subst s'; clear Hs.
    set (s1 := set_outbox (<[i:=set_delivery Resumed e]> (outbox s)) s).
    destruct (resume_frame (cont e) s1) as (Ho & _ & _ & _ & Hx).
    assert (Hi : (i < length (outbox s))%nat) by (eapply lookup_lt_Some; eauto).
    split; [|split]; rewrite ?Ho; simpl.
    + apply Forall_insert; auto. exact (Forall_lookup_1 _ _ _ _ H1 El).
    + intros Hx'. destruct (Hx Hx') as [Hold|Hk].
      * destruct (H2 Hold) as (j & r & Hl & Hk & Hr).
        exists j, r. split; auto. rewrite list_lookup_insert_ne; auto.
        intros ->. congruence.
      * exists i, (set_delivery Resumed e). split; [|auto].
        now apply list_lookup_insert_eq.
    + intros j x Hl Hn. apply elem_of_app. left.
      destruct (decide (i = j)) as [->|Hne].
      * apply (H3 j e El). congruence.
      * rewrite list_lookup_insert_ne in Hl by exact Hne. eauto.
Qed.

Lemma consistent_run (b : Bundle) (waits : JsValue) (sched : list Label) (s : State) :
  run (start b waits) sched = Some s -> consistent sched s.
Proof.
  revert s. induction sched as [|l pre IH] using rev_ind; intros s Hr.
  - inversion Hr. apply consistent_start.
  - rewrite run_snoc in Hr.
    destruct (run (start b waits) pre) as [s1|]; [|discriminate]. simpl in Hr.
    eapply consistent_step; eauto.
Qed.


(** ** How many messages are sent *)

Lemma filter_cont_insert (f : Cont -> bool) (v : bool) (o : list Sent)
    (i : nat) (e : Sent) (d : Delivery) :
  o !! i = Some e ->
  length (filter (fun x => f (cont x) = v) (<[i := set_delivery d e]> o))
  = length (filter (fun x => f (cont x) = v) o).
Proof.
  revert i. induction o as [|x o IH]; intros [|i] Hl; simpl in *; try discriminate.
  - inversion Hl; subst. rewrite !filter_cons. simpl.
    destruct (decide (f (cont e) = v)); reflexivity.
  - rewrite !filter_cons. specialize (IH i Hl).
    destruct (decide (f (cont x) = v)); simpl; congruence.
Qed.

Lemma counts_snoc (o : list Sent) (e : Sent) :
  reports_in (o ++ [e]) = (reports_in o + (if is_report (cont e) then 1 else 0))%nat /\
  callback_msgs_in (o ++ [e])
  = (callback_msgs_in o + (if is_report (cont e) then 0 else 1))%nat.
Proof.
  unfold reports_in, callback_msgs_in. rewrite !filter_app, !length_app.
  rewrite !filter_cons, !filter_nil.
  destruct (is_report (cont e)); simpl; auto.
Qed.

Lemma counts_total (o : list Sent) :
  length o = (reports_in o + callback_msgs_in o)%nat.
Proof.
  unfold reports_in, callback_msgs_in.
  induction o as [|x o IH]; [reflexivity|].
  rewrite !filter_cons. simpl.
  destruct (is_report (cont x)); simpl; lia.
Qed.

Lemma userAction_counts (a : UserAction) (s : State) :
  reports_in (outbox (userAction a s)) = reports_in (outbox s) /\
  callback_msgs_in (outbox (userAction a s))
  = (callback_msgs_in (outbox s) + (if is_callback a then 1 else 0))%nat.
Proof.
  rewrite userAction_outbox.
  destruct a; simpl; try (split; [reflexivity|lia]).
  destruct (counts_snoc (outbox s) (mkSent (MSuccess (orNull data)) KCallback InFlight))
    as (-> & ->). simpl. split; lia.
Qed.

Lemma runBody_counts (acts : list UserAction) (s : State) :
  reports_in (outbox (runBody acts s)) = reports_in (outbox s) /\
  callback_msgs_in (outbox (runBody acts s))
  = (callback_msgs_in (outbox s) + callbacks_in acts)%nat.
Proof.
  revert s. induction acts as [|a acts IH]; intros s; simpl.
  - unfold callbacks_in. simpl. split; [reflexivity|lia].
  - destruct (IH (userAction a s)) as (-> & ->).
    destruct (userAction_counts a s) as (-> & ->).
    unfold callbacks_in. rewrite filter_cons.
    destruct (is_callback a); simpl; split; auto; lia.
Qed.

(** One step: a call of [callback] adds one message of [callback], and
    only the continuation of [await handler(EVENT, CONTEXT)] adds a report. *)
Lemma step_counts (s s' : State) (l : Label) :
  step s l = Some s' ->
  callback_msgs_in (outbox s')
  = (callback_msgs_in (outbox s) + (if no_callback l then 0 else 1))%nat /\
  (reports_in (outbox s) = (if awaitingHandler s then 0 else 1)%nat ->
   reports_in (outbox s') = (if awaitingHandler s' then 0 else 1)%nat).
Proof.
  intros Hs. pose proof (step_alive _ _ _ Hs) as Ha.
  unfold step in Hs. rewrite Ha in Hs.
  destruct l as [a| |i|i].
  - destruct (invoked s); [|discriminate]. inversion Hs; subst s'.
    destruct (userAction_counts a s) as (-> & ->).
    destruct (userAction_frame a s) as (_ & _ & -> & _).
    destruct a; simpl; auto.
  - destruct (awaitingHandler s) eqn:Aw; [|discriminate].
    unfold processEvents_resume in Hs.
    destruct (promise s); inversion Hs; subst s'; simpl;
      match goal with
      | |- context [outbox s ++ [?e]] => destruct (counts_snoc (outbox s) e) as (-> & ->)
      end; simpl; split; intros; lia.
  - destruct (outbox s !! i) as [e|] eqn:El; [|discriminate].
    destruct (delivery e); inversion Hs; subst s'; simpl.
    unfold reports_in, callback_msgs_in.
    rewrite !filter_cont_insert by exact El. split; [lia|auto].
  - destruct (outbox s !! i) as [e|] eqn:El; [|discriminate].
    destruct (delivery e); inversion Hs; subst s'.
    destruct (resume_frame (cont e)
                (set_outbox (<[i:=set_delivery Resumed e]> (outbox s)) s))
      as (-> & _ & -> & _). simpl.
    unfold reports_in, callback_msgs_in.
    rewrite !filter_cont_insert by exact El. split; [lia|auto].
Qed.

Lemma run_counts (sched : list Label) (s s' : State) :
  run s sched = Some s' ->
  callback_msgs_in (outbox s')
  = (callback_msgs_in (outbox s) + callbacks_of sched)%nat /\
  (reports_in (outbox s) = (if awaitingHandler s then 0 else 1)%nat ->
   reports_in (outbox s') = (if awaitingHandler s' then 0 else 1)%nat).
Proof.
  revert s. induction sched as [|l sched IH]; intros s Hr; simpl in Hr.
  - inversion Hr; subst. unfold callbacks_of. simpl. split; [lia|auto].
  - destruct (step s l) as [s1|] eqn:Es; [|discriminate].
    destruct (step_counts _ _ _ Es) as (Hc & Hp).
    destruct (IH _ Hr) as (Hc' & Hp').
    split; [|auto]. rewrite Hc', Hc. unfold callbacks_of. rewrite filter_cons.
    destruct (no_callback l); simpl; lia.
Qed.

Lemma start_counts (b : Bundle) (waits : JsValue) :
  is_function (userHandler b) = true ->
  awaitingHandler (start b waits) = true /\
  reports_in (outbox (start b waits)) = 0%nat /\
  callback_msgs_in (outbox (start b waits)) = callbacks_in (body (behaviour b)).
Proof.
  intros Hf. rewrite start_function by exact Hf. unfold processEvents.
  split; [reflexivity|]. simpl.
  destruct (runHandler_frame (behaviour b) (initial waits)) as (-> & _).
  destruct (runBody_counts (body (behaviour b)) (set_invoked true (initial waits)))
    as (-> & ->). simpl. auto.
Qed.


(** ** A handler that throws *)

Lemma rejected_step (e : JsValue) (s s' : State) (l : Label) :
  rejected_with e s -> step s l = Some s' -> rejected_with e s'.
Proof.
  intros (Hp & He & Ho) Hs. pose proof (step_alive _ _ _ Hs) as Ha.
  unfold step in Hs. rewrite Ha in Hs.
  destruct l as [a| |i|i].
  - destruct (invoked s); [|discriminate]. inversion Hs; subst s'.
    destruct (userAction_frame a s) as (_ & He' & _).
    destruct (userAction_settled a s) as (_ & _ & Hr).
    split; [auto|]. split; [congruence|].
    rewrite userAction_outbox. destruct a; auto.
    apply Forall_app_2; auto. repeat constructor.
  - destruct (awaitingHandler s); [|discriminate].
    unfold processEvents_resume in Hs. rewrite Hp in Hs.
    inversion Hs; subst s'. simpl. repeat split; auto.
    apply Forall_app_2; auto. constructor; [|constructor]. right. auto.
  - destruct (outbox s !! i) as [x|] eqn:El; [|discriminate].
    destruct (delivery x); inversion Hs; subst s'. simpl. repeat split; auto.
    apply Forall_insert; auto. exact (Forall_lookup_1 _ _ _ _ Ho El).
  - destruct (outbox s !! i) as [x|] eqn:El; [|discriminate].
    destruct (delivery x); inversion Hs; subst s'.
    pose proof (Forall_lookup_1 _ _ _ _ Ho El) as Hx.
    assert (Hins : Forall (only_failure_of e) (<[i:=set_delivery Resumed x]> (outbox s)))
      by (apply Forall_insert; auto).
    destruct s as [p cu ah ec w o aw iv ex]. simpl in *. subst.
    destruct Hx as [-> | [-> _]]; simpl; repeat split; auto.
Qed.

(** C8.  When the user's function throws [e] and no entry point settled
    the promise before, the promise is rejected with [e]; processEvents
    sends the failure message with the serialized [e] and exits with 1
    once the transport has called back.  On every schedule an exit has
    code 1 and comes after the transport's callback for that message. *)
Theorem sync_throw_reports_failure_then_exits
    (b : Bundle) (waits e : JsValue) :
  is_function (userHandler b) = true ->
  finish (behaviour b) = Throw e ->
  pendingAtReturn (behaviour b) waits ->
  promise (start b waits) = Rejected e /\
  outbox (start b waits) = [] /\
  (exists s',
     run (start b waits) [LResumeHandler; LConfirm 0; LResume 0] = Some s' /\
     outbox s' = [mkSent (MFailure (serializeError e)) KProcessError Resumed] /\
     exited s' = Some 1) /\
  (forall s', run (start b waits) [LResumeHandler] = Some s' -> exited s' = None) /\
  forall sched s' c,
    run (start b waits) sched = Some s' -> exited s' = Some c ->
    c = 1 /\
    exists pre i x,
      sched = pre ++ [LResume i] /\ LConfirm i ∈ pre /\
      outbox s' !! i = Some x /\ msg x = MFailure (serializeError e).
Proof.
  intros Hf Hfin Hp.
  assert (Hstart : start b waits
                   = mkState (Rejected e) false false false
                       (callbackWaitsForEmptyEventLoop (start b waits)) [] true true None).
  { rewrite start_function by exact Hf. unfold processEvents, runHandler.
    rewrite Hfin. destruct (pending_body _ _ Hp) as [w ->]. reflexivity. }
  split; [now rewrite Hstart|]. split; [now rewrite Hstart|].
  split; [|split].
  - rewrite Hstart. eexists. repeat split.
  - rewrite Hstart. simpl. intros s' H. now inversion H.
  - intros sched s' c Hr Hx.
    destruct sched as [|l pre _] using rev_ind.
    + inversion Hr; subst. rewrite Hstart in Hx. discriminate.
    + rewrite run_snoc in Hr.
      destruct (run (start b waits) pre) as [s0|] eqn:Hpre; [|discriminate].
      simpl in Hr.
      assert (Hrej : rejected_with e s0).
      { apply (run_invariant (rejected_with e) (fun _ => True)) with (4 := Hpre).
        - intros s1 l1 s2 H1 _ H2. eapply rejected_step; eauto.
        - apply Forall_true. auto.
        - rewrite Hstart. repeat split. constructor. }
      destruct Hrej as (_ & He & Ho).
      destruct (step_exit _ _ _ _ Hr Hx) as (i & x & -> & El & Ed & Hout & Hc).
      destruct (consistent_run _ _ _ _ Hpre) as (_ & _ & H3).
      pose proof (Forall_lookup_1 _ _ _ _ Ho El) as [Hk|[Hk Hm]].
      * destruct Hc as [(_ & He' & _)|[(Hk' & _)|([Hk'|Hk'] & _)]]; congruence.
      * destruct Hc as [(Hk' & _)|[(Hk' & _)|(_ & ->)]]; try congruence.
        split; [reflexivity|].
        exists pre, i, (set_delivery Resumed x). repeat split; auto.
        -- apply (H3 i x El). congruence.
        -- rewrite Hout. apply list_lookup_insert_eq. eapply lookup_lt_Some; eauto.
Qed.

(** ** A missing export *)

Lemma append_assoc (a b c : string) : (a +:+ b) +:+ c = a +:+ b +:+ c.
Proof.
  induction a as [|ch a IH]; [reflexivity|].
  change (String ch ((a +:+ b) +:+ c) = String ch (a +:+ b +:+ c)).
  now rewrite IH.
Qed.

Lemma missing_message_names (handlerName origHandlerPath : string) :
  contains (missing_message handlerName origHandlerPath) handlerName /\
  contains (missing_message handlerName origHandlerPath) origHandlerPath.
Proof.
  unfold contains, missing_message. split.
  - exists ("Handler " +:+ quote),
      (quote +:+ " missing in " +:+ quote +:+ origHandlerPath +:+ quote).
    reflexivity.
  - exists ("Handler " +:+ quote +:+ handlerName +:+ quote +:+ " missing in " +:+ quote),
      quote.
    rewrite !append_assoc. reflexivity.
Qed.

Lemma unresolved_step (m : Msg) (s s' : State) (l : Label) :
  unresolved_with m s -> step s l = Some s' -> unresolved_with m s'.
Proof.
  intros (Hi & Hw & Hp & (d & Ho) & Hx) Hs. pose proof (step_alive _ _ _ Hs) as Ha.
  unfold step in Hs. rewrite Ha in Hs.
  destruct l as [a| |i|i].
  - rewrite Hi in Hs. discriminate.
  - rewrite Hw in Hs. discriminate.
  - rewrite Ho in Hs. destruct i as [|i]; [|discriminate]. simpl in Hs.
    destruct d; inversion Hs; subst s'. unfold unresolved_with. simpl.
    repeat split; eauto.
  - rewrite Ho in Hs. destruct i as [|i]; [|discriminate]. simpl in Hs.
    destruct d; inversion Hs; subst s'. unfold unresolved_with. simpl.
    repeat split; eauto.
Qed.

(** C9.  When the looked-up export is [null] or [undefined], getHandler
    throws an error whose message contains the export's name and the
    original handler path; start sends the failure message with that error
    and exits with 1 after the transport's callback.  On no schedule is
    the user's function called, nor anything else sent. *)
Theorem missing_export_fails_without_invocation (b : Bundle) (waits : JsValue) :
  is_nullish (userHandler b) = true ->
  let message := missing_message (HANDLER b) (ORIG_HANDLER_PATH b) in
  let failure := MFailure (serializeError (JError message)) in
  getHandler b = inl (JError message) /\
  contains message (HANDLER b) /\
  contains message (ORIG_HANDLER_PATH b) /\
  start b waits
    = mkState Pending false false false waits [mkSent failure KStartError InFlight]
        false false None /\
  (exists s',
     run (start b waits) [LConfirm 0; LResume 0] = Some s' /\
     outbox s' = [mkSent failure KStartError Resumed] /\
     invoked s' = false /\
     exited s' = Some 1) /\
  (forall a, step (start b waits) (LUser a) = None) /\
  forall sched s',
    run (start b waits) sched = Some s' ->
    invoked s' = false /\ msgs s' = [failure] /\
    (exited s' = None \/ exited s' = Some 1).
Proof.
  intros Hn message failure.
  assert (Hg : getHandler b = inl (JError message))
    by (unfold getHandler; now rewrite Hn).
  assert (Hs : start b waits
               = mkState Pending false false false waits
                   [mkSent failure KStartError InFlight] false false None)
    by (unfold start; now rewrite Hg).
  destruct (missing_message_names (HANDLER b) (ORIG_HANDLER_PATH b)) as (H1 & H2).
  assert (Hall : forall sched s',
             run (start b waits) sched = Some s' -> unresolved_with failure s').
  { intros sched s' Hr.
    apply (run_invariant (unresolved_with failure) (fun _ => True)) with (4 := Hr).
    - intros s1 l1 s2 Hu _ Hst. eapply unresolved_step; eauto.
    - apply Forall_true. auto.
    - rewrite Hs. repeat split; eauto. }
  split; [exact Hg|]. split; [exact H1|]. split; [exact H2|]. split; [exact Hs|].
  split; [|split].
  - rewrite Hs. eexists. repeat split.
  - rewrite Hs. reflexivity.
  - intros sched s' Hr.
    destruct (Hall sched s' Hr) as (Hi & _ & _ & (d & Ho) & Hx).
    split; [exact Hi|]. split; [|exact Hx]. unfold msgs. now rewrite Ho.
Qed.

(** ** A fulfilled promise *)



(** ** The callback after the return *)



(** ** A synchronous call of the callback *)





(** ** A returned thenable *)





(** ** The first settlement wins *)

Lemma step_settled (s s' : State) (l : Label) :
  step s l = Some s' ->
  (forall v, promise s = Fulfilled v -> promise s' = Fulfilled v) /\
  (forall e, promise s = Rejected e -> promise s' = Rejected e).
Proof.
  intros Hs. pose proof (step_alive _ _ _ Hs) as Hx.
  unfold step in Hs. rewrite Hx in Hs.
  destruct l as [a| |i|i].
  - destruct (invoked s); [|discriminate]. inversion Hs; subst s'.
    destruct (userAction_settled a s) as (_ & Hf & Hr). auto.
  - destruct (awaitingHandler s); [|discriminate].
    unfold processEvents_resume in Hs.
    destruct (promise s) eqn:Ep; inversion Hs; subst s'; simpl; rewrite Ep; auto.
  - destruct (outbox s !! i) as [x|]; [|discriminate].
    destruct (delivery x); inversion Hs; subst s'; simpl; auto.
  - destruct (outbox s !! i) as [x|]; [|discriminate].
    destruct (delivery x); inversion Hs; subst s'.
    destruct (resume_frame (cont x)
                (set_outbox (<[i:=set_delivery Resumed x]> (outbox s)) s))
      as (_ & -> & _). simpl. auto.
Qed.


(** Once the handler promise is fulfilled or rejected, nothing that runs
    afterwards changes it: later calls of [callback], [succeed], [fail] and
    [done], a thenable settling, the transport and the script itself all
    leave the settlement as it is. *)
Theorem first_settlement_wins (s s' : State) (sched : list Label) :
  run s sched = Some s' ->
  (forall v, promise s = Fulfilled v -> promise s' = Fulfilled v) /\
  (forall e, promise s = Rejected e -> promise s' = Rejected e).
Proof.
  revert s. induction sched as [|l sched IH]; intros s Hr; simpl in Hr.
  - inversion Hr; subst. auto.
  - destruct (step s l) as [s1|] eqn:Es; [|discriminate].
    destruct (step_settled _ _ _ Es) as (Hf & Hj).
    destruct (IH _ Hr) as (Hf' & Hj'). split; auto.
Qed.

(** ** The data of a success message *)

Lemma orNull_defined (v : JsValue) : orNull v <> JUndefined.
Proof. destruct v; simpl; congruence. Qed.

Lemma defined_userAction (a : UserAction) (s : State) :
  Forall defined_data (outbox s) -> Forall defined_data (outbox (userAction a s)).
Proof.
  intros H. rewrite userAction_outbox. destruct a; auto.
  apply Forall_app_2; auto. constructor; [|constructor].
  unfold defined_data. simpl. intros E. inversion E as [E'].
  exact (orNull_defined _ E').
Qed.

Lemma defined_runBody (acts : list UserAction) (s : State) :
  Forall defined_data (outbox s) -> Forall defined_data (outbox (runBody acts s)).
Proof.
  revert s. induction acts as [|a acts IH]; intros s H; simpl; auto.
  apply IH. now apply defined_userAction.
Qed.

Lemma defined_step (s s' : State) (l : Label) :
  Forall defined_data (outbox s) -> step s l = Some s' ->
  Forall defined_data (outbox s').
Proof.
  intros H Hs. pose proof (step_alive _ _ _ Hs) as Hx.
  unfold step in Hs. rewrite Hx in Hs.
  destruct l as [a| |i|i].
  - destruct (invoked s); [|discriminate]. inversion Hs; subst s'.
    now apply defined_userAction.
  - destruct (awaitingHandler s); [|discriminate].
    unfold processEvents_resume in Hs.
    destruct (promise s) as [| |v|e]; inversion Hs; subst s'; simpl;
      apply Forall_app_2; auto; constructor; try constructor;
      unfold defined_data; simpl; try discriminate.
    intros E. inversion E as [E']. exact (orNull_defined _ E').
  - destruct (outbox s !! i) as [x|] eqn:El; [|discriminate].
    destruct (delivery x); inversion Hs; subst s'; simpl.
    apply Forall_insert; auto. exact (Forall_lookup_1 _ _ _ _ H El).
  - destruct (outbox s !! i) as [x|] eqn:El; [|discriminate].
    destruct (delivery x); inversion Hs; subst s'.
    destruct (resume_frame (cont x)
                (set_outbox (<[i:=set_delivery Resumed x]> (outbox s)) s))
      as (-> & _). simpl.
    apply Forall_insert; auto. exact (Forall_lookup_1 _ _ _ _ H El).
Qed.

(** Whatever the module, the context and the schedule, no success message
    handed to [process.send] carries [undefined] as its data: [undefined]
    is always replaced by [null]. *)
Theorem success_data_never_undefined
    (b : Bundle) (waits : JsValue) (sched : list Label) (s : State) :
  run (start b waits) sched = Some s ->
  Forall (fun m => m <> MSuccess JUndefined) (msgs s).
Proof.
  intros Hr. unfold msgs. apply Forall_fmap.
  change (Forall defined_data (outbox s)).
  apply (run_invariant (fun s => Forall defined_data (outbox s)) (fun _ => True))
    with (4 := Hr).
  - intros s1 l1 s2 H1 _ H2. eapply defined_step; eauto.
  - apply Forall_true. auto.
  - unfold start. destruct (getHandler b) as [e|h].
    + simpl. constructor; [|constructor]. unfold defined_data. simpl. discriminate.
    + unfold processEvents. simpl.
      destruct (runHandler_frame h (initial waits)) as (-> & _).
      apply defined_runBody. constructor.
Qed.

(** ** The outbox goes with the promise *)

Lemma agrees_userAction (a : UserAction) (s : State) :
  agrees s -> agrees (userAction a s).
Proof.
  destruct s as [p cu ah ec w o aw iv ex]. unfold agrees.
  destruct a as [err data|v|e|err data|v|v|e]; unfold userAction; unfold_script; simpl;
    repeat match goal with
           | |- context [truthy ?x] => destruct (truthy x)
           | |- context [isThenable ?x] => destruct (isThenable x)
           end;
    destruct p; simpl; intros H;
    repeat match goal with
           | H : _ /\ _ |- _ => destruct H
           end;
    repeat split; auto; solve_forall.
Qed.

Lemma agrees_runBody (acts : list UserAction) (s : State) :
  agrees s -> agrees (runBody acts s).
Proof.
  revert s. induction acts as [|a acts IH]; intros s H; simpl; auto.
  apply IH. now apply agrees_userAction.
Qed.

Lemma agrees_insert (s : State) (i : nat) (x : Sent) (d : Delivery) :
  agrees s -> outbox s !! i = Some x ->
  agrees (set_outbox (<[i := set_delivery d x]> (outbox s)) s).
Proof.
  destruct s as [p cu ah ec w o aw iv ex]. unfold agrees. simpl.
  intros H El.
  destruct p; repeat match goal with
                     | H : _ /\ _ |- _ => destruct H
                     end;
    repeat split; auto;
    (apply Forall_insert; [assumption|]);
    match goal with
    | H : Forall _ o |- _ => exact (Forall_lookup_1 _ _ _ _ H El)
    end.
Qed.

Lemma agrees_step (s s' : State) (l : Label) :
  agrees s -> step s l = Some s' -> agrees s'.
Proof.
  intros H Hs. pose proof (step_alive _ _ _ Hs) as Hx.
  unfold step in Hs. rewrite Hx in Hs.
  destruct l as [a| |i|i].
  - destruct (invoked s); [|discriminate]. inversion Hs; subst s'.
    now apply agrees_userAction.
  - destruct (awaitingHandler s); [|discriminate].
    unfold processEvents_resume in Hs. unfold agrees in *.
    destruct (promise s) as [| |v|e] eqn:Ep; inversion Hs; subst s'; simpl; rewrite Ep.
    + solve_forall.
    + destruct H as (He & Ho). split; [exact He|]. solve_forall.
  - destruct (outbox s !! i) as [x|] eqn:El; [|discriminate].
    destruct (delivery x); inversion Hs; subst s'.
    now apply agrees_insert.
  - destruct (outbox s !! i) as [x|] eqn:El; [|discriminate].
    destruct (delivery x); inversion Hs; subst s'.
    pose proof (agrees_insert s i x Resumed H El) as H1.
    assert (Hk : match promise s with
                 | Pending | Locked => cont x = KCallback
                 | Fulfilled _ => True
                 | Rejected _ => cont x = KCallback \/ cont x = KProcessError
                 end).
    { unfold agrees in H. destruct (promise s).
      - destruct H as (_ & _ & Ho). exact (Forall_lookup_1 _ _ _ _ Ho El).
      - destruct H as (_ & _ & Ho). exact (Forall_lookup_1 _ _ _ _ Ho El).
      - exact I.
      - destruct H as (_ & Ho).
        destruct (Forall_lookup_1 _ _ _ _ Ho El) as [Hc|[Hc _]]; auto. }
    clear Hs El. revert H1 Hk.
    generalize (<[i:=set_delivery Resumed x]> (outbox s)). intros o'.
    destruct s as [p cu ah ec w o aw iv ex]. unfold agrees. simpl in *. subst ex.
    clear H.
    destruct p; intros H1 Hk; destruct (cont x) eqn:Ek;
      try (exfalso; intuition discriminate);
      unfold resume; unfold_script; simpl;
      repeat match goal with
             | |- context [if ?c then _ else _] => destruct c
             end; simpl; intuition (auto; congruence).
Qed.

Lemma agrees_start (b : Bundle) (waits : JsValue) :
  is_function (userHandler b) = true -> agrees (start b waits).
Proof.
  intros Hf. rewrite start_function by exact Hf.
  unfold processEvents, runHandler.
  assert (H0 : agrees (runBody (body (behaviour b)) (set_invoked true (initial waits)))).
  { apply agrees_runBody. unfold agrees. simpl. auto. }
  destruct (finish (behaviour b)) as [result|e].
  - destruct (isThenable result).
    + revert H0. generalize (runBody (body (behaviour b)) (set_invoked true (initial waits))).
      intros s. destruct s as [p cu ah ec w o aw iv ex]. unfold agrees. simpl. auto.
    + pose proof (agrees_userAction (USucceed JNull) _ H0) as H1. revert H1. simpl.
      generalize (resolve JNull (runBody (body (behaviour b)) (set_invoked true (initial waits)))).
      intros s. destruct s as [p cu ah ec w o aw iv ex]. unfold agrees. simpl. auto.
  - pose proof (agrees_userAction (UFail e) _ H0) as H1. revert H1. simpl.
    generalize (reject e (runBody (body (behaviour b)) (set_invoked true (initial waits)))).
    intros s. destruct s as [p cu ah ec w o aw iv ex]. unfold agrees. simpl. auto.
Qed.

Lemma agrees_run (b : Bundle) (waits : JsValue) (sched : list Label) (s : State) :
  is_function (userHandler b) = true ->
  run (start b waits) sched = Some s -> agrees s.
Proof.
  intros Hf Hr.
  apply (run_invariant agrees (fun _ => True)) with (4 := Hr).
  - intros s1 l1 s2 H1 _ H2. eapply agrees_step; eauto.
  - apply Forall_true. auto.
  - now apply agrees_start.
Qed.

(** The last step of a run that has exited. *)
Lemma run_exit (s0 s : State) (sched : list Label) (c : Z) :
  exited s0 = None -> run s0 sched = Some s -> exited s = Some c ->
  exists pre s1 i x,
    sched = pre ++ [LResume i] /\ run s0 pre = Some s1 /\
    outbox s1 !! i = Some x /\ delivery x = Confirmed /\
    outbox s = <[i := set_delivery Resumed x]> (outbox s1) /\
    promise s = promise s1 /\
    ((cont x = KCallback /\ exitOnCallback s1 = true /\ c = 0) \/
     (cont x = KProcessResponse /\ c = 0) \/
     ((cont x = KProcessError \/ cont x = KStartError) /\ c = 1)).
Proof.
  intros Hn Hr Hx.
  destruct sched as [|l pre _] using rev_ind.
  - inversion Hr; subst. congruence.
  - rewrite run_snoc in Hr.
    destruct (run s0 pre) as [s1|] eqn:Hpre; [|discriminate]. simpl in Hr.
    destruct (step_exit _ _ _ _ Hr Hx) as (i & x & -> & El & Ed & Ho & Hc).
    exists pre, s1, i, x. repeat split; auto.
    pose proof (step_alive _ _ _ Hr) as Ha.
    unfold step in Hr. rewrite Ha, El, Ed in Hr.
    inversion Hr; subst s.
    destruct (resume_frame (cont x)
                (set_outbox (<[i:=set_delivery Resumed x]> (outbox s1)) s1))
      as (_ & -> & _). reflexivity.
Qed.

(** ** The code of exit goes with the settlement *)

(** Whatever way a resolvable handler's promise came to be rejected with
    [e] (a throw, [context.fail], [callback] or [done] with an error, a
    thenable rejecting), and whatever the flags and the handler's style, a
    process that has exited has exited with 1, after the transport's
    callback for the failure report carrying the serialized [e]. *)
Theorem rejection_exits_with_one
    (b : Bundle) (waits e : JsValue) (sched : list Label) (s : State) (c : Z) :
  is_function (userHandler b) = true ->
  run (start b waits) sched = Some s ->
  promise s = Rejected e ->
  exited s = Some c ->
  c = 1 /\
  exists i x,
    LConfirm i ∈ sched /\ outbox s !! i = Some x /\
    x = mkSent (MFailure (serializeError e)) KProcessError Resumed.
Proof.
  intros Hf Hr Hp Hx.
  destruct (start_fresh b waits) as (_ & _ & Hn).
  destruct (run_exit _ _ _ _ Hn Hr Hx)
    as (pre & s1 & i & x & -> & Hpre & El & Ed & Ho & Hps & Hc).
  pose proof (agrees_run _ _ _ _ Hf Hpre) as Ha. unfold agrees in Ha.
  rewrite <- Hps, Hp in Ha. destruct Ha as (He & Hall).
  destruct (consistent_run _ _ _ _ Hpre) as (_ & _ & H3).
  destruct (Forall_lookup_1 _ _ _ _ Hall El) as [Hk|[Hk Hm]].
  - destruct Hc as [(_ & He' & _)|[(Hk' & _)|([Hk'|Hk'] & _)]]; congruence.
  - destruct Hc as [(Hk' & _)|[(Hk' & _)|(_ & ->)]]; try congruence.
    split; [reflexivity|]. exists i, (set_delivery Resumed x). split; [|split].
    + apply elem_of_app. left. apply (H3 i x El). congruence.
    + rewrite Ho. apply list_lookup_insert_eq. eapply lookup_lt_Some; eauto.
    + destruct x as [m k d]. simpl in *. subst. reflexivity.
Qed.


Lemma callback_only_no_report (o : list Sent) :
  Forall (fun x => cont x = KCallback) o -> reports_in o = 0%nat.
Proof.
  unfold reports_in. induction 1 as [|x o Hx _ IH]; [reflexivity|].
  rewrite filter_cons. rewrite Hx. simpl. exact IH.
Qed.

(** As long as the promise of a resolvable handler is not settled (it is
    pending, or follows a thenable that has not settled), the script does
    nothing on its own: the process has not exited, no exit is armed and
    processEvents has sent nothing; only calls of [callback] have. *)
Theorem nothing_before_settlement
    (b : Bundle) (waits : JsValue) (sched : list Label) (s : State) :
  is_function (userHandler b) = true ->
  run (start b waits) sched = Some s ->
  promise s = Pending \/ promise s = Locked ->
  exited s = None /\ exitOnCallback s = false /\
  reports_in (outbox s) = 0%nat /\
  length (outbox s)
  = (callbacks_in (body (behaviour b)) + callbacks_of sched)%nat.
Proof.
  intros Hf Hr Hp.
  pose proof (agrees_run _ _ _ _ Hf Hr) as Ha. unfold agrees in Ha.
  assert (H : exitOnCallback s = false /\ exited s = None /\
              Forall (fun x => cont x = KCallback) (outbox s))
    by (destruct Hp as [Hp|Hp]; rewrite Hp in Ha; exact Ha).
  destruct H as (He & Hx & Ho).
  pose proof (callback_only_no_report _ Ho) as H0.
  repeat split; auto.
  destruct (start_counts b waits Hf) as (_ & _ & Hc).
  destruct (run_counts _ _ _ Hr) as (Hc' & _).
  rewrite (counts_total (outbox s)), H0, Hc', Hc. reflexivity.
Qed.

(** ** When the exit on callback is armed *)

Lemma armed_sync_step (s s' : State) (l : Label) :
  armed_sync s -> step s l = Some s' -> armed_sync s'.
Proof.
  intros H Hs. pose proof (step_alive _ _ _ Hs) as Hx.
  unfold step in Hs. rewrite Hx in Hs. unfold armed_sync in *.
  destruct l as [a| |i|i].
  - destruct (invoked s); [|discriminate]. inversion Hs; subst s'.
    destruct (userAction_frame a s) as (-> & -> & _). exact H.
  - destruct (awaitingHandler s); [|discriminate].
    unfold processEvents_resume in Hs.
    destruct (promise s); inversion Hs; subst s'; simpl; exact H.
  - destruct (outbox s !! i) as [x|]; [|discriminate].
    destruct (delivery x); inversion Hs; subst s'; simpl; exact H.
  - destruct (outbox s !! i) as [x|]; [|discriminate].
    destruct (delivery x); inversion Hs; subst s'.
    clear Hs. revert H. generalize (<[i:=set_delivery Resumed x]> (outbox s)).
    intros o'. destruct s as [p cu ah ec w o aw iv ex]. simpl.
    destruct (cont x); unfold resume; unfold_script; simpl;
      repeat match goal with
             | |- context [if ?c then _ else _] => destruct c
             end; simpl; auto.
Qed.

(** The exit on callback is armed only for a sync-style handler (the
    call did not return a thenable) whose promise is fulfilled, and only
    after the transport's callback for the success report of
    processEvents: never before the report is out, never for an async
    handler, never after a failure. *)
Theorem exit_on_callback_armed_only_after_sync_success
    (b : Bundle) (waits : JsValue) (sched : list Label) (s : State) :
  is_function (userHandler b) = true ->
  run (start b waits) sched = Some s ->
  exitOnCallback s = true ->
  asyncHandler s = false /\
  exists v j,
    promise s = Fulfilled v /\ LConfirm j ∈ sched /\
    outbox s !! j = Some (mkSent (MSuccess (orNull v)) KProcessResponse Resumed).
Proof.
  intros Hf Hr He.
  assert (Hs : armed_sync s).
  { apply (run_invariant armed_sync (fun _ => True)) with (4 := Hr).
    - intros s1 l1 s2 H1 _ H2. eapply armed_sync_step; eauto.
    - apply Forall_true. auto.
    - destruct (start_fresh b waits) as (_ & He0 & _).
      unfold armed_sync. congruence. }
  split; [exact (Hs He)|].
  pose proof (agrees_run _ _ _ _ Hf Hr) as Ha. unfold agrees in Ha.
  destruct (consistent_run _ _ _ _ Hr) as (_ & H2 & H3).
  destruct (H2 He) as (j & r & Hl & Hk & Hd).
  destruct (promise s) as [| |v|e].
  - destruct Ha; congruence.
  - destruct Ha; congruence.
  - exists v, j. split; [reflexivity|]. split.
    + apply (H3 j r Hl). congruence.
    + destruct (Forall_lookup_1 _ _ _ _ Ha Hl) as [Hc|[_ Hm]]; [congruence|].
      destruct r as [m k d]. simpl in *. subst. exact Hl.
  - destruct Ha; congruence.
Qed.

(** ** The late callback, whatever its arguments *)


(** ** Sync-style success: when the script leaves the process running *)




(** ** Sync-style success without the callback *)





(** ** An export that is not a function *)

Lemma not_function_message_names (handlerName origHandlerPath : string) :
  contains (not_function_message handlerName origHandlerPath) handlerName /\
  contains (not_function_message handlerName origHandlerPath) origHandlerPath.
Proof.
  unfold contains, not_function_message. split.
  - exists ("Handler " +:+ quote),
      (quote +:+ " in " +:+ quote +:+ origHandlerPath +:+ quote
         +:+ " is not a function").
    reflexivity.
  - exists ("Handler " +:+ quote +:+ handlerName +:+ quote +:+ " in " +:+ quote),
      (quote +:+ " is not a function").
    rewrite !append_assoc. reflexivity.
Qed.

(** When the looked-up export is there but is not a function, getHandler
    throws an error whose message contains the export's name and the
    original handler path; start sends the failure message with that error
    and exits with 1 after the transport's callback.  On no schedule is
    anything called as a handler, anything else sent, or another code of
    exit used. *)
Theorem non_function_export_fails_without_invocation
    (b : Bundle) (waits : JsValue) :
  is_nullish (userHandler b) = false ->
  is_function (userHandler b) = false ->
  let message := not_function_message (HANDLER b) (ORIG_HANDLER_PATH b) in
  let failure := MFailure (serializeError (JError message)) in
  getHandler b = inl (JError message) /\
  contains message (HANDLER b) /\
  contains message (ORIG_HANDLER_PATH b) /\
  (exists s',
     run (start b waits) [LConfirm 0; LResume 0] = Some s' /\
     outbox s' = [mkSent failure KStartError Resumed] /\
     invoked s' = false /\
     exited s' = Some 1) /\
  (forall a, step (start b waits) (LUser a) = None) /\
  forall sched s',
    run (start b waits) sched = Some s' ->
    invoked s' = false /\ msgs s' = [failure] /\
    (exited s' = None \/ exited s' = Some 1).
Proof.
  intros Hn Hnf message failure.
  assert (Hg : getHandler b = inl (JError message))
    by (unfold getHandler; now rewrite Hn, Hnf).
  assert (Hs : start b waits
               = mkState Pending false false false waits
                   [mkSent failure KStartError InFlight] false false None)
    by (unfold start; now rewrite Hg).
  destruct (not_function_message_names (HANDLER b) (ORIG_HANDLER_PATH b)) as (H1 & H2).
  assert (Hall : forall sched s',
             run (start b waits) sched = Some s' -> unresolved_with failure s').
  { intros sched s' Hr.
    apply (run_invariant (unresolved_with failure) (fun _ => True)) with (4 := Hr).
    - intros s1 l1 s2 Hu _ Hst. eapply unresolved_step; eauto.
    - apply Forall_true. auto.
    - rewrite Hs. repeat split; eauto. }
  split; [exact Hg|]. split; [exact H1|]. split; [exact H2|].
  split; [|split].
  - rewrite Hs. eexists. repeat split.
  - rewrite Hs. reflexivity.
  - intros sched s' Hr.
    destruct (Hall sched s' Hr) as (Hi & _ & _ & (d & Ho) & Hx).
    split; [exact Hi|]. split; [|exact Hx]. unfold msgs. now rewrite Ho.
Qed.

(** ** The two resolution errors *)

Lemma lastChar_app (a b : string) (c : ascii) :
  lastChar b = Some c -> lastChar (a +:+ b) = Some c.
Proof.
  intros Hb. induction a as [|ch a IH]; [exact Hb|].
  change (lastChar (String ch (a +:+ b)) = Some c).
  destruct (a +:+ b) as [|ch' rest] eqn:E; [discriminate|].
  exact IH.
Qed.

(** The message of a missing export ends with a double quote and the
    message of an export that is not a function ends with the letter n:
    whatever the names and paths, the two errors of getHandler never have
    the same message. *)
Theorem resolution_errors_differ (h p h' p' : string) :
  lastChar (missing_message h p) = Some "034"%char /\
  lastChar (not_function_message h' p') = Some "n"%char /\
  missing_message h p <> not_function_message h' p'.
Proof.
  assert (H1 : lastChar (missing_message h p) = Some "034"%char).
  { unfold missing_message.
    do 7 (apply lastChar_app). reflexivity. }
  assert (H2 : lastChar (not_function_message h' p') = Some "n"%char).
  { unfold not_function_message.
    do 8 (apply lastChar_app). reflexivity. }
  repeat split; auto.
  intros E. rewrite E, H2 in H1. discriminate.
Qed.

End Bootstrap.

(** ** Runs of the sample modules *)



(** C2, refuted as stated: on a pending promise [callback(null, 1)] and
    [done(null, 1)] settle alike, but only [callback] reports and marks the
    callback as used. *)
Lemma callback_reports_where_done_does_not :
  let s := start sampleSerialize asyncBundle JUndefined in
  promise (callback JNull (JNum 1) s) = Fulfilled (JNum 1) /\
  promise (done JNull (JNum 1) s) = Fulfilled (JNum 1) /\
  msgs (callback JNull (JNum 1) s) = [MSuccess (JNum 1)] /\
  msgs (done JNull (JNum 1) s) = [] /\
  callbackUsed (callback JNull (JNum 1) s) = true /\
  callbackUsed (done JNull (JNum 1) s) = false /\
  msgs (callback JNull (JNum 1) s) <> msgs (done JNull (JNum 1) s).
Proof. simpl. repeat split. discriminate. Qed.

Lemma plain_return_settles_null_witness :
  is_function (userHandler plainBundle) = true /\
  finish (behaviour plainBundle) = Return JUndefined /\
  isThenable JUndefined = false /\
  pendingAtReturn (behaviour plainBundle) JUndefined /\
  promise (start sampleSerialize plainBundle JUndefined) = Fulfilled JNull.
Proof.
  repeat (split; [reflexivity|]).
  exact (proj1 (plain_return_settles_null sampleSerialize plainBundle
                  JUndefined JUndefined eq_refl eq_refl eq_refl eq_refl)).
Defined.





Lemma sync_throw_reports_failure_then_exits_witness :
  (is_function (userHandler throwingBundle) = true /\
   finish (behaviour throwingBundle) = Throw (JError "boom") /\
   pendingAtReturn (behaviour throwingBundle) JUndefined) /\
  promise (start sampleSerialize throwingBundle JUndefined) = Rejected (JError "boom").
Proof.
  split; [repeat split|].
  exact (proj1 (sync_throw_reports_failure_then_exits sampleSerialize throwingBundle
                  JUndefined (JError "boom") eq_refl eq_refl eq_refl)).
Defined.

Lemma missing_export_fails_without_invocation_witness :
  is_nullish (userHandler missingBundle) = true /\
  getHandler missingBundle
  = inl (JError (missing_message "handler" "foo/bar")) /\
  contains (missing_message "handler" "foo/bar") "handler" /\
  contains (missing_message "handler" "foo/bar") "foo/bar".
Proof.
  split; [reflexivity|].
  pose proof (missing_export_fails_without_invocation sampleSerialize missingBundle
                JUndefined eq_refl) as (H1 & H2 & H3 & _).
  exact (conj H1 (conj H2 H3)).
Defined.


(** The report of the settlement is confirmed before any exit; the message
    of a call of [callback] made after that report was sent can still be
    in flight when processEvents exits. *)
Example exit_with_late_callback_message_in_flight :
  run sampleSerialize (start sampleSerialize asyncBundle JUndefined)
    [LUser (USucceed (JNum 5)); LResumeHandler; LUser (UCallback JNull (JNum 1));
     LConfirm 0; LResume 0]
  = Some (mkState (Fulfilled (JNum 5)) true true false JUndefined
            [mkSent (MSuccess (JNum 5)) KProcessResponse Resumed;
             mkSent (MSuccess (JNum 1)) KCallback InFlight]
            false true (Some 0)).
Proof. reflexivity. Qed.

(** ** Further runs of the sample modules *)

Lemma first_settlement_wins_witness :
  exists s',
    run sampleSerialize (start sampleSerialize syncCallbackBundle JUndefined)
      [LUser (UFail (JError "boom")); LUser (UCallback (JError "boom") JUndefined);
       LUser (USucceed JNull)] = Some s' /\
    promise (start sampleSerialize syncCallbackBundle JUndefined) = Fulfilled (JNum 7) /\
    promise s' = Fulfilled (JNum 7).
Proof.
  eexists. split; [reflexivity|]. split; [reflexivity|].
  exact (proj1 (first_settlement_wins sampleSerialize
                  (start sampleSerialize syncCallbackBundle JUndefined) _
                  [LUser (UFail (JError "boom"));
                   LUser (UCallback (JError "boom") JUndefined);
                   LUser (USucceed JNull)] eq_refl) (JNum 7) eq_refl).
Defined.

Lemma success_data_never_undefined_witness :
  exists s,
    run sampleSerialize (start sampleSerialize errorCallbackBundle JUndefined)
      [LUser (UCallback JNull JUndefined)] = Some s /\
    msgs s = [MSuccess JNull; MSuccess JNull] /\
    Forall (fun m => m <> MSuccess JUndefined) (msgs s).
Proof.
  eexists. split; [reflexivity|]. split; [reflexivity|].
  exact (success_data_never_undefined sampleSerialize errorCallbackBundle JUndefined
           [LUser (UCallback JNull JUndefined)] _ eq_refl).
Defined.

Lemma rejection_exits_with_one_witness :
  exists s,
    is_function (userHandler errorCallbackBundle) = true /\
    run sampleSerialize (start sampleSerialize errorCallbackBundle JUndefined)
      [LResumeHandler; LConfirm 0; LResume 0; LConfirm 1; LResume 1] = Some s /\
    promise s = Rejected (JError "boom") /\
    exited s = Some 1 /\
    1 = 1 /\
    exists i x,
      LConfirm i ∈ [LResumeHandler; LConfirm 0; LResume 0; LConfirm 1; LResume 1] /\
      outbox s !! i = Some x /\
      x = mkSent (MFailure (sampleSerialize (JError "boom"))) KProcessError Resumed.
Proof.
  eexists. split; [reflexivity|]. split; [reflexivity|].
  split; [reflexivity|]. split; [reflexivity|].
  exact (rejection_exits_with_one sampleSerialize errorCallbackBundle JUndefined
           (JError "boom") [LResumeHandler; LConfirm 0; LResume 0; LConfirm 1; LResume 1]
           _ 1 eq_refl eq_refl eq_refl eq_refl).
Defined.


Lemma nothing_before_settlement_witness :
  exists s,
    is_function (userHandler asyncBundle) = true /\
    run sampleSerialize (start sampleSerialize asyncBundle JUndefined)
      [LUser (USetWaits (JBool false)); LUser (UAdoptResolve JNull)] = Some s /\
    (promise s = Pending \/ promise s = Locked) /\
    exited s = None /\ exitOnCallback s = false /\
    reports_in (outbox s) = 0%nat.
Proof.
  eexists. split; [reflexivity|]. split; [reflexivity|].
  split; [left; reflexivity|].
  destruct (nothing_before_settlement sampleSerialize asyncBundle JUndefined
              [LUser (USetWaits (JBool false)); LUser (UAdoptResolve JNull)]
              _ eq_refl eq_refl (or_introl eq_refl))
    as (H1 & H2 & H3 & _).
  exact (conj H1 (conj H2 H3)).
Defined.

Lemma exit_on_callback_armed_only_after_sync_success_witness :
  exists s,
    is_function (userHandler plainBundle) = true /\
    run sampleSerialize (start sampleSerialize plainBundle (JBool false))
      [LResumeHandler; LConfirm 0; LResume 0] = Some s /\
    exitOnCallback s = true /\
    asyncHandler s = false.
Proof.
  eexists. split; [reflexivity|]. split; [reflexivity|]. split; [reflexivity|].
  exact (proj1 (exit_on_callback_armed_only_after_sync_success sampleSerialize
                  plainBundle (JBool false) [LResumeHandler; LConfirm 0; LResume 0]
                  _ eq_refl eq_refl eq_refl)).
Defined.




Lemma non_function_export_fails_without_invocation_witness :
  is_nullish (userHandler numberBundle) = false /\
  is_function (userHandler numberBundle) = false /\
  getHandler numberBundle
  = inl (JError (not_function_message "handler" "foo/bar")) /\
  contains (not_function_message "handler" "foo/bar") "handler" /\
  contains (not_function_message "handler" "foo/bar") "foo/bar".
Proof.
  split; [reflexivity|]. split; [reflexivity|].
  pose proof (non_function_export_fails_without_invocation sampleSerialize
                numberBundle JUndefined eq_refl eq_refl) as (H1 & H2 & H3 & _).
  exact (conj H1 (conj H2 H3)).
Defined.
